(** * debug_regex.py : two regular expressions tried on two fixed strings

    The script compiles two patterns with Python's [re] module, applies the
    first with [re.search] and the second with [re.match] to two string
    literals, and prints what was captured.

    The development has three layers:
    - Python [str] values as lists of code points, and the part of [re] the
      script exercises: the pattern syntax it uses, a greedy backtracking
      matcher with capture groups, [re.search], [re.match], [Match.group];
    - the script itself, statement by statement, in a small monad that
      carries the standard output and an exception; [print] raises on a
      text the output encoding cannot take;
    - theorems about the script and about the two patterns.

    The non-ASCII part of the Unicode alphanumeric table consulted by [\w]
    is a parameter of the whole development: nothing below depends on its
    contents. *)

From Stdlib Require Import List NArith Arith Bool Lia String Ascii.
Import ListNotations.

Set Implicit Arguments.

(** ** Python strings *)

(** A [str] is a sequence of Unicode code points. *)
Definition str := list N.

(** The code points of a string literal (the literals of the script are
    all ASCII). *)
Definition codes (s : string) : str :=
  List.map N_of_ascii (list_ascii_of_string s).

Definition chr (a : ascii) : N := N_of_ascii a.

(** [s.startswith(p)] *)
Fixpoint starts_with (p s : str) : bool :=
  match p, s with
  | [], _ => true
  | _ :: _, [] => false
  | a :: p', b :: s' => N.eqb a b && starts_with p' s'
  end.

(** Some suffix of [s] satisfies [p]. *)
Fixpoint occurs (p : str -> bool) (s : str) : bool :=
  p s || match s with
         | [] => false
         | _ :: s' => occurs p s'
         end.

(** [sub in s] *)
Definition contains (sub s : str) : bool := occurs (starts_with sub) s.

(** ** The fragment of [re] used by the script *)

Module Re.

(** *** Character classes *)

Inductive cset : Type :=
| CAny                                (* [.]  without DOTALL *)
| CLit (c : N)                        (* a literal character *)
| CSpace                              (* [\s] *)
| CWord                               (* [\w] *)
| CSet (negated : bool) (cs : list N) (* [[abc]] and [[^abc]] *).

(** [str.isspace] on one code point, the test behind [\s] in a [str]
    pattern. *)
Definition is_space (c : N) : bool :=
  ((9 <=? c) && (c <=? 13) || (28 <=? c) && (c <=? 32)
   || (c =? 133) || (c =? 160) || (c =? 5760)
   || (8192 <=? c) && (c <=? 8202)
   || (c =? 8232) || (c =? 8233) || (c =? 8239) || (c =? 8287)
   || (c =? 12288))%N.

Definition ascii_alnum (c : N) : bool :=
  ((48 <=? c) && (c <=? 57) || (65 <=? c) && (c <=? 90)
   || (97 <=? c) && (c <=? 122))%N.

Definition mem (c : N) (cs : list N) : bool := existsb (N.eqb c) cs.

(** *** Patterns *)

Inductive regex : Type :=
| Eps
| Chr (cl : cset)
| Cat (r1 r2 : regex)
| Alt (r1 r2 : regex)
| Star (r : regex)                    (* greedy [r*] *)
| Group (n : nat) (r : regex)         (* capturing group number [n] *).

(** Greedy [r+]. *)
Definition Plus (r : regex) : regex := Cat r (Star r).

(** Number of the highest capturing group. *)
Fixpoint ngroups (r : regex) : nat :=
  match r with
  | Eps | Chr _ => 0
  | Cat r1 r2 | Alt r1 r2 => Nat.max (ngroups r1) (ngroups r2)
  | Star r1 => ngroups r1
  | Group n r1 => Nat.max n (ngroups r1)
  end.

(** *** Pattern syntax

    The parser accepts the syntax the two patterns are written in:
    literals, [.], [\s], [\w], an escaped punctuation character, bracket
    sets of literal characters (possibly negated), capturing groups,
    alternation and the greedy postfix operators [*] and [+].  Anything
    else is refused. *)

Definition is_special (c : N) : bool :=
  mem c (codes ".^$*+?{}[]\|()").

Definition ascii_punct (c : N) : bool :=
  ((c <? 128) && negb (ascii_alnum c))%N.

(** The members of a bracket set, up to the closing bracket. *)
Fixpoint parse_set (s : str) (acc : list N) : option (list N * str) :=
  match s with
  | [] => None
  | c :: s' =>
      if (c =? chr "]")%N then
        match acc with
        | [] => None
        | _ => Some (rev acc, s')
        end
      else if mem c (codes "\-[") then None
      else parse_set s' (c :: acc)
  end.

Definition parse_escape (s : str) : option (regex * str) :=
  match s with
  | [] => None
  | c :: s' =>
      if (c =? chr "s")%N then Some (Chr CSpace, s')
      else if (c =? chr "w")%N then Some (Chr CWord, s')
      else if ascii_punct c then Some (Chr (CLit c), s')
      else None
  end.

(** A postfix operator, if one follows. *)
Definition parse_postfix (r : regex) (s : str) : option (regex * str) :=
  match s with
  | c :: s' =>
      if (c =? chr "*")%N then
        match s' with
        | d :: _ => if mem d (codes "*+?{") then None else Some (Star r, s')
        | [] => Some (Star r, s')
        end
      else if (c =? chr "+")%N then
        match s' with
        | d :: _ => if mem d (codes "*+?{") then None else Some (Plus r, s')
        | [] => Some (Plus r, s')
        end
      else Some (r, s)
  | [] => Some (r, s)
  end.

(** [g] is the number of groups opened so far. *)
Fixpoint parse_alt (fuel : nat) (s : str) (g : nat)
  : option (regex * str * nat) :=
  match fuel with
  | O => None
  | S fuel' =>
      match parse_seq fuel' s g with
      | Some (r1, c :: s1, g1) =>
          if (c =? chr "|")%N then
            match parse_alt fuel' s1 g1 with
            | Some (r2, s2, g2) => Some (Alt r1 r2, s2, g2)
            | None => None
            end
          else Some (r1, c :: s1, g1)
      | other => other
      end
  end

with parse_seq (fuel : nat) (s : str) (g : nat)
  : option (regex * str * nat) :=
  match fuel with
  | O => None
  | S fuel' =>
      match s with
      | [] => Some (Eps, s, g)
      | c :: _ =>
          if mem c (codes "|)") then Some (Eps, s, g)
          else
            match parse_atom fuel' s g with
            | Some (a, s1, g1) =>
                match parse_postfix a s1 with
                | Some (p, s2) =>
                    match parse_seq fuel' s2 g1 with
                    | Some (Eps, s3, g3) => Some (p, s3, g3)
                    | Some (r, s3, g3) => Some (Cat p r, s3, g3)
                    | None => None
                    end
                | None => None
                end
            | None => None
            end
      end
  end

with parse_atom (fuel : nat) (s : str) (g : nat)
  : option (regex * str * nat) :=
  match fuel with
  | O => None
  | S fuel' =>
      match s with
      | [] => None
      | c :: s' =>
          if (c =? chr "(")%N then
            match s' with
            | d :: _ =>
                if (d =? chr "?")%N then None
                else
                  match parse_alt fuel' s' (S g) with
                  | Some (r, e :: s1, g1) =>
                      if (e =? chr ")")%N then Some (Group (S g) r, s1, g1)
                      else None
                  | _ => None
                  end
            | [] => None
            end
          else if (c =? chr "[")%N then
            match s' with
            | d :: s'' =>
                if (d =? chr "^")%N then
                  match parse_set s'' [] with
                  | Some (cs, s1) => Some (Chr (CSet true cs), s1, g)
                  | None => None
                  end
                else
                  match parse_set s' [] with
                  | Some (cs, s1) => Some (Chr (CSet false cs), s1, g)
                  | None => None
                  end
            | [] => None
            end
          else if (c =? chr "\")%N then
            match parse_escape s' with
            | Some (r, s1) => Some (r, s1, g)
            | None => None
            end
          else if (c =? chr ".")%N then Some (Chr CAny, s', g)
          else if is_special c then None
          else Some (Chr (CLit c), s', g)
      end
  end.

(** [re.compile]: the whole pattern must be consumed. *)
Definition compile (pattern : string) : option regex :=
  let p := codes pattern in
  match parse_alt (3 * List.length p + 3) p 0 with
  | Some (r, [], _) => Some r
  | _ => None
  end.

(** *** Matching *)

Section Engine.

(** The Unicode alphanumeric test on code points from 128 upwards. *)
Variable uni_alnum : N -> bool.

(** The test behind [\w] in a [str] pattern: alphanumeric or underscore. *)
Definition is_word (c : N) : bool :=
  if (c <? 128)%N then ascii_alnum c || (c =? 95)%N else uni_alnum c.

Definition cset_test (cl : cset) (c : N) : bool :=
  match cl with
  | CAny => negb (c =? 10)%N
  | CLit d => (c =? d)%N
  | CSpace => is_space c
  | CWord => is_word c
  | CSet neg cs => xorb neg (mem c cs)
  end.


(** The capture slots: slot [n - 1] holds what group [n] matched last,
    [None] while the group has not taken part in the match. *)
Definition caps := list (option str).

Fixpoint set_slot (j : nat) (w : str) (c : caps) : caps :=
  match c, j with
  | [], _ => []
  | _ :: c', O => Some w :: c'
  | x :: c', S j' => x :: set_slot j' w c'
  end.

Definition set_group (n : nat) (w : str) (c : caps) : caps :=
  match n with
  | O => c
  | S j => set_slot j w c
  end.

Section Run.

(** What the matcher answers with when the whole pattern has matched. *)
Variable R : Type.

(** The greedy loop of a repetition whose body is matched by [body]: one
    more iteration first, the rest of the pattern when that fails.  An
    iteration that consumes nothing ends the repetition.  [fuel] bounds
    the number of iterations; the matcher starts the loop with more than
    the length of the input, which every further iteration shortens, so
    the bound is never met. *)
Fixpoint star_loop
  (body : str -> caps -> (str -> caps -> option R) -> option R)
  (k : str -> caps -> option R) (fuel : nat) (s : str) (c : caps)
  {struct fuel} : option R :=
  match fuel with
  | O => k s c
  | S fuel' =>
      match
        body s c
          (fun s1 c1 =>
             if List.length s1 <? List.length s
             then star_loop body k fuel' s1 c1
             else k s1 c1)
      with
      | Some res => Some res
      | None => k s c
      end
  end.

(** [run r s c k]: match [r] at the front of [s] with capture slots [c],
    then hand the rest of the input and the slots to [k].  When [k] fails
    the matcher backtracks into [r]: alternatives are tried left to right
    and a repetition gives back one iteration at a time. *)
Fixpoint run (r : regex) (s : str) (c : caps)
  (k : str -> caps -> option R) {struct r} : option R :=
  match r with
  | Eps => k s c
  | Chr cl =>
      match s with
      | x :: s' => if cset_test cl x then k s' c else None
      | [] => None
      end
  | Cat r1 r2 => run r1 s c (fun s1 c1 => run r2 s1 c1 k)
  | Alt r1 r2 =>
      match run r1 s c k with
      | Some res => Some res
      | None => run r2 s c k
      end
  | Star r1 => star_loop (run r1) k (S (List.length s)) s c
  | Group n r1 =>
      run r1 s c
        (fun s1 c1 =>
           k s1 (set_group n (firstn (List.length s - List.length s1) s) c1))
  end.

End Run.

(** *** Match objects *)

Record Match : Type := mkMatch {
  m_start : nat;          (* [m.start()] *)
  m_whole : str;          (* [m.group(0)] *)
  m_slots : caps          (* the groups of the pattern, in order *)
}.

(** A match of [r] at the front of [s], which starts at offset [i] of the
    subject string. *)
Definition match_here (r : regex) (i : nat) (s : str) : option Match :=
  run r s (repeat None (ngroups r))
    (fun s1 c1 =>
       Some (mkMatch i (firstn (List.length s - List.length s1) s) c1)).

(** The leftmost match: every start offset in turn, the end of the string
    included. *)
Fixpoint scan (r : regex) (i : nat) (s : str) : option Match :=
  match match_here r i s with
  | Some m => Some m
  | None =>
      match s with
      | [] => None
      | _ :: s' => scan r (S i) s'
      end
  end.

(** *** What a pattern matches

    [sem r w c c']: the pattern [r] matches exactly the word [w], and
    matching it turns the capture slots [c] into [c'].  This is the
    specification the matcher is checked against. *)
Inductive sem : regex -> str -> caps -> caps -> Prop :=
| sem_eps c : sem Eps [] c c
| sem_chr cl x c : cset_test cl x = true -> sem (Chr cl) [x] c c
| sem_cat r1 r2 w1 w2 c c1 c2 :
    sem r1 w1 c c1 -> sem r2 w2 c1 c2 -> sem (Cat r1 r2) (w1 ++ w2) c c2
| sem_alt_l r1 r2 w c c' : sem r1 w c c' -> sem (Alt r1 r2) w c c'
| sem_alt_r r1 r2 w c c' : sem r2 w c c' -> sem (Alt r1 r2) w c c'
| sem_star_nil r c : sem (Star r) [] c c
| sem_star_cons r w1 w2 c c1 c2 :
    sem r w1 c c1 -> sem (Star r) w2 c1 c2 -> sem (Star r) (w1 ++ w2) c c2
| sem_group n r w c c1 :
    sem r w c c1 -> sem (Group n r) w c (set_group n w c1).

End Engine.

(** *** Exceptions *)

Inductive exn : Type :=
| ReError                 (* [re.error]: the pattern does not compile *)
| IndexError              (* [IndexError: no such group] *)
| UnicodeEncodeError      (* a text the output encoding cannot take *).

Inductive result (A : Type) : Type :=
| Ok (a : A)
| Raise (e : exn).

Arguments Ok {A} a.
Arguments Raise {A} e.

Section Api.

Variable uni_alnum : N -> bool.

(** [re.search(pattern, string)] *)
Definition search (pattern : string) (s : str) : result (option Match) :=
  match compile pattern with
  | Some r => Ok (scan uni_alnum r 0 s)
  | None => Raise ReError
  end.

(** [re.match(pattern, string)]: a match at offset zero only. *)
Definition match_ (pattern : string) (s : str) : result (option Match) :=
  match compile pattern with
  | Some r => Ok (match_here uni_alnum r 0 s)
  | None => Raise ReError
  end.

End Api.

(** [m.group(i)]: the whole match for [0], a group's text or [None] for a
    group of the pattern, and an exception beyond. *)
Definition group (m : Match) (i : nat) : result (option str) :=
  match i with
  | O => Ok (Some (m_whole m))
  | S j =>
      match nth_error (m_slots m) j with
      | Some v => Ok v
      | None => Raise IndexError
      end
  end.

End Re.

(** ** The script *)

Module Script.
Import Re.

(** A statement transforms the text written to standard output so far and
    either completes or raises. *)
Definition IO (A : Type) : Type := str -> result A * str.

Definition ret {A} (a : A) : IO A := fun out => (Ok a, out).

Definition bind {A B} (m : IO A) (f : A -> IO B) : IO B :=
  fun out =>
    match m out with
    | (Ok a, out') => f a out'
    | (Raise e, out') => (Raise e, out')
    end.

Definition lift {A} (r : result A) : IO A := fun out => (r, out).

(** Standard output is a text stream encoded in UTF-8 with strict error
    handling, the default: every code point can be written but the
    surrogates, U+D800 to U+DFFF. *)
Definition is_surrogate (c : N) : bool := ((55296 <=? c) && (c <=? 57343))%N.

Definition encodable (s : str) : bool :=
  forallb (fun c => negb (is_surrogate c)) s.

(** [print(s)]: the text and a newline; on a text that cannot be encoded
    nothing is written and [UnicodeEncodeError] is raised. *)
Definition print (s : str) : IO unit :=
  fun out =>
    if encodable s then (Ok tt, out ++ s ++ [10%N])
    else (Raise UnicodeEncodeError, out).

Notation "x <- m ;; f" := (bind m (fun x => f))
  (at level 61, m at next level, right associativity).
Notation "m ;;; f" := (bind m (fun _ => f))
  (at level 61, right associativity).

(** [m] completes with [a] after appending [o] to the output, whatever
    was written before. *)
Definition emits {A} (m : IO A) (a : A) (o : str) : Prop :=
  forall out, m out = (Ok a, out ++ o).

(** A replacement field of an f-string: [str()] of the value. *)
Definition fmt (v : option str) : str :=
  match v with
  | Some s => s
  | None => codes "None"
  end.

Definition text : str := codes "for (var char in 'hello'.split('')) {}".
Definition pattern : string :=
  "for\s*\(\s*(var|final)\s+(\w+)\s+in\s+([^)]+)\)".
Definition iterable_text : str := codes "'hello'.split('')".
Definition split_pattern : string := ".+\.split\(.*\)".

Section Program.

Variable uni_alnum : N -> bool.

(** Lines 4 to 14, for a subject string [text]. *)
Definition for_each_test (text : str) : IO unit :=
  m <- lift (search uni_alnum pattern text) ;;
  match m with
  | Some m =>
      g0 <- lift (group m 0) ;;
      print (codes "Full match: '" ++ fmt g0 ++ codes "'") ;;;
      g1 <- lift (group m 1) ;;
      print (codes "Keyword: '" ++ fmt g1 ++ codes "'") ;;;
      g2 <- lift (group m 2) ;;
      print (codes "Variable: '" ++ fmt g2 ++ codes "'") ;;;
      g3 <- lift (group m 3) ;;
      print (codes "Iterable: '" ++ fmt g3 ++ codes "'")
  | None => print (codes "No match found")
  end.

(** Lines 17 to 22, for a subject string [iterable_text]. *)
Definition split_test (iterable_text : str) : IO unit :=
  m <- lift (match_ uni_alnum split_pattern iterable_text) ;;
  match m with
  | Some _ =>
      print (codes "Split pattern matches: '" ++ iterable_text
             ++ codes "' -> should return String")
  | None =>
      print (codes "Split pattern doesn't match: '" ++ iterable_text
             ++ codes "'")
  end.

(** The script on two subject strings. *)
Definition script (text iterable_text : str) : IO unit :=
  for_each_test text ;;; split_test iterable_text.

(** The script as written. *)
Definition debug_regex : IO unit := script text iterable_text.

End Program.

(** The lines of an output, each closed by a newline. *)
Definition unlines (ls : list str) : str :=
  List.concat (List.map (fun l => l ++ [10%N]) ls).

End Script.

(** ** The two patterns, parsed *)

Module Patterns.
Import Re.

Definition lit (a : ascii) : regex := Chr (CLit (chr a)).

Definition spaces : regex := Star (Chr CSpace).
Definition spaces1 : regex := Plus (Chr CSpace).

(** [for\s*\(\s*(var|final)\s+(\w+)\s+in\s+([^)]+)\)] *)
Definition pattern_re : regex :=
  Cat (lit "f") (Cat (lit "o") (Cat (lit "r")
  (Cat spaces
  (Cat (lit "(")
  (Cat spaces
  (Cat (Group 1
         (Alt (Cat (lit "v") (Cat (lit "a") (lit "r")))
              (Cat (lit "f") (Cat (lit "i") (Cat (lit "n")
                 (Cat (lit "a") (lit "l")))))))
  (Cat spaces1
  (Cat (Group 2 (Plus (Chr CWord)))
  (Cat spaces1
  (Cat (lit "i") (Cat (lit "n")
  (Cat spaces1
  (Cat (Group 3 (Plus (Chr (CSet true [chr ")"]))))
       (lit ")")))))))))))))).

(** [.+\.split\(.*\)] *)
Definition split_re : regex :=
  Cat (Plus (Chr CAny))
  (Cat (lit ".") (Cat (lit "s") (Cat (lit "p") (Cat (lit "l")
  (Cat (lit "i") (Cat (lit "t") (Cat (lit "(")
  (Cat (Star (Chr CAny)) (lit ")"))))))))).

End Patterns.

(** ** Vocabulary of the properties *)

Module Props.
Import Re.

(** The offsets at which [sub] occurs in [s], counted from [i]. *)
Fixpoint positions_from (sub : str) (i : nat) (s : str) : list nat :=
  (if starts_with sub s then [i] else [])
  ++ match s with
     | [] => []
     | _ :: s' => positions_from sub (S i) s'
     end.

Definition positions (sub s : str) : list nat := positions_from sub 0 s.

Definition all_in (p : N -> bool) (w : str) : Prop :=
  Forall (fun x => p x = true) w.

(** The matcher is sound for [r] under every continuation: an answer
    comes with a word [r] matches at the front of the input. *)
Definition sound_for (uni_alnum : N -> bool) (R : Type) (r : regex) : Prop :=
  forall (s : str) (c : caps) (k : str -> caps -> option R) (res : R),
    run uni_alnum r s c k = Some res ->
    exists w s' c',
      s = w ++ s' /\ sem uni_alnum r w c c' /\ k s' c' = Some res.

Section InToken.

Variable uni_alnum : N -> bool.

(** The token [in] preceded by an identifier and whitespace occurs in [s]. *)
Definition has_in_token (s : str) : Prop :=
  exists pre w ws post,
    s = pre ++ w ++ ws ++ codes "in" ++ post
    /\ w <> [] /\ all_in (is_word uni_alnum) w
    /\ ws <> [] /\ all_in is_space ws.

Fixpoint skip_spaces (s : str) : str :=
  match s with
  | x :: s' => if is_space x then skip_spaces s' else s
  | [] => []
  end.

Definition in_token_here (s : str) : bool :=
  match s with
  | x :: y :: s' =>
      is_word uni_alnum x && is_space y
      && starts_with (codes "in") (skip_spaces s')
  | _ => false
  end.

(** The same as a test. *)
Definition has_in_tokenb (s : str) : bool := occurs in_token_here s.

End InToken.

(** A text without line break, which is what [.] can run over. *)
Definition line (w : str) : Prop := all_in (fun x => negb (x =? 10)%N) w.

(** A call of [split] on a receiver of at least one character, all on one
    line: [receiver.split(args)]. *)
Definition split_call (w : str) : Prop :=
  exists x recv args,
    w = (x :: recv) ++ codes ".split(" ++ args ++ codes ")"
    /\ line (x :: recv) /\ line args.

Section Header.

Variable uni_alnum : N -> bool.

(** The head of a for-each loop with keyword [kw], variable [v] and
    iterable [it]: [for (kw v in it)], with the spacing the pattern
    allows. *)
Definition for_each_header (w kw v it : str) : Prop :=
  exists ws1 ws2 ws3 ws4 ws5,
    w = codes "for" ++ ws1 ++ codes "(" ++ ws2 ++ kw ++ ws3 ++ v ++ ws4
        ++ codes "in" ++ ws5 ++ it ++ codes ")"
    /\ all_in is_space ws1 /\ all_in is_space ws2
    /\ (kw = codes "var" \/ kw = codes "final")
    /\ (ws3 <> [] /\ all_in is_space ws3)
    /\ (v <> [] /\ all_in (is_word uni_alnum) v)
    /\ (ws4 <> [] /\ all_in is_space ws4)
    /\ (ws5 <> [] /\ all_in is_space ws5)
    /\ (it <> [] /\ all_in (fun x => negb (x =? chr ")")%N) it).


End Header.

(** A table with no alphanumeric code point beyond ASCII, for the
    examples. *)
Definition ascii_only : N -> bool := fun _ => false.

End Props.

(** ** Facts about strings *)

Section StrFacts.

Lemma starts_with_app (p post : str) : starts_with p (p ++ post) = true.
Proof.
  induction p as [|a p IH]; simpl; [reflexivity|].
  now rewrite N.eqb_refl, IH.
Qed.

Lemma starts_with_split (p s : str) :
  starts_with p s = true -> exists post, s = p ++ post.
Proof.
  revert s; induction p as [|a p IH]; intros s H.
  - now exists s.
  - destruct s as [|b s]; simpl in H; [discriminate|].
    apply andb_prop in H as [Hab Hp].
    apply N.eqb_eq in Hab; subst b.
    destruct (IH _ Hp) as [post ->].
    now exists post.
Qed.

Lemma occurs_app (p : str -> bool) (pre suf : str) :
  p suf = true -> occurs p (pre ++ suf) = true.
Proof.
  intros H; induction pre as [|a pre IH]; simpl.
  - destruct suf; simpl; now rewrite H.
  - rewrite IH. apply orb_true_r.
Qed.

Lemma occurs_split (p : str -> bool) (s : str) :
  occurs p s = true -> exists pre suf, s = pre ++ suf /\ p suf = true.
Proof.
  induction s as [|a s IH]; simpl; intros H.
  - rewrite orb_false_r in H. now exists [], [].
  - apply orb_prop in H as [H|H].
    + now exists [], (a :: s).
    + destruct (IH H) as (pre & suf & -> & Hp).
      now exists (a :: pre), suf.
Qed.

Lemma contains_app (sub pre post : str) :
  contains sub (pre ++ sub ++ post) = true.
Proof. apply occurs_app, starts_with_app. Qed.

Lemma positions_from_app (sub pre post : str) (i : nat) :
  In (i + List.length pre) (Props.positions_from sub i (pre ++ sub ++ post)).
Proof.
  revert i; induction pre as [|a pre IH]; intros i.
  - simpl List.length. rewrite Nat.add_0_r.
    change ([] ++ sub ++ post) with (sub ++ post).
    destruct sub as [|b sub]; simpl.
    + destruct post; simpl; now left.
    + rewrite N.eqb_refl, starts_with_app. simpl. now left.
  - simpl. apply in_or_app. right.
    replace (i + S (List.length pre)) with (S i + List.length pre) by lia.
    apply IH.
Qed.

Lemma firstn_consumed (w rest : str) :
  firstn (List.length (w ++ rest) - List.length rest) (w ++ rest) = w.
Proof.
  rewrite length_app, Nat.add_sub.
  rewrite firstn_app, Nat.sub_diag, firstn_all. simpl. apply app_nil_r.
Qed.

End StrFacts.

(** ** The matcher answers only with matches of the pattern *)

Section Soundness.
Import Re Props.

Variable uni_alnum : N -> bool.

Lemma set_group_length (n : nat) (w : str) (c : caps) :
  List.length (set_group n w c) = List.length c.
Proof.
  destruct n as [|j]; [reflexivity|]. simpl.
  revert j; induction c as [|x c IH]; intros [|j]; simpl; try reflexivity.
  now rewrite IH.
Qed.

Lemma sem_slots (r : regex) (w : str) (c c' : caps) :
  sem uni_alnum r w c c' -> List.length c' = List.length c.
Proof.
  induction 1; try reflexivity; try congruence.
  rewrite set_group_length. assumption.
Qed.

Variable R : Type.

Lemma star_loop_sound (r : regex) (k : str -> caps -> option R) :
  sound_for uni_alnum R r ->
  forall (fuel : nat) (s : str) (c : caps) (res : R),
    star_loop (run uni_alnum r) k fuel s c = Some res ->
    exists w s' c',
      s = w ++ s' /\ sem uni_alnum (Star r) w c c' /\ k s' c' = Some res.
Proof.
  intros Hr; induction fuel as [|fuel IH]; intros s c res H; simpl in H.
  - exists [], s, c. repeat split; [constructor | assumption].
  - destruct (run uni_alnum r s c _) as [res'|] eqn:Hbody.
    + injection H as ->.
      apply Hr in Hbody as (w1 & s1 & c1 & -> & Hw1 & Hk).
      destruct (List.length s1 <? List.length (w1 ++ s1)).
      * apply IH in Hk as (w2 & s2 & c2 & -> & Hw2 & Hk).
        exists (w1 ++ w2), s2, c2. rewrite app_assoc.
        repeat split; [econstructor; eassumption | assumption].
      * exists (w1 ++ []), s1, c1. rewrite app_nil_r at 1.
        repeat split; [|assumption].
        econstructor; [eassumption | constructor].
    + exists [], s, c. repeat split; [constructor | assumption].
Qed.

(** Whatever the matcher answers, it has split the input into a word the
    pattern matches and a rest the continuation accepted. *)
Lemma run_sound (r : regex) : sound_for uni_alnum R r.
Proof.
  induction r as [|cl|r1 IH1 r2 IH2|r1 IH1 r2 IH2|r IH|n r IH];
    intros s c k res H; cbn [run] in H.
  - exists [], s, c. repeat split; [constructor | assumption].
  - destruct s as [|x s]; [discriminate|].
    destruct (cset_test uni_alnum cl x) eqn:Hx; [|discriminate].
    exists [x], s, c. repeat split; [now constructor | assumption].
  - apply IH1 in H as (w1 & s1 & c1 & -> & Hw1 & H).
    apply IH2 in H as (w2 & s2 & c2 & -> & Hw2 & H).
    exists (w1 ++ w2), s2, c2. rewrite app_assoc.
    repeat split; [econstructor; eassumption | assumption].
  - destruct (run uni_alnum r1 s c k) as [res'|] eqn:H1.
    + injection H as ->.
      apply IH1 in H1 as (w & s' & c' & -> & Hw & Hk).
      exists w, s', c'. repeat split; [now apply sem_alt_l | assumption].
    + apply IH2 in H as (w & s' & c' & -> & Hw & Hk).
      exists w, s', c'. repeat split; [now apply sem_alt_r | assumption].
  - eapply star_loop_sound; eassumption.
  - apply IH in H as (w & s' & c' & -> & Hw & Hk).
    rewrite firstn_consumed in Hk.
    exists w, s', (set_group n w c'). repeat split; [now constructor | assumption].
Qed.

End Soundness.

(** ** The repetition loop never runs out of iterations *)

Section Fuel.
Import Re.

Variable uni_alnum : N -> bool.
Variable R : Type.

(** Two continuations that agree on every input no longer than [s]. *)
#[local] Abbreviation agree_upto s k1 k2 :=
  (forall (s' : str) (c' : caps),
     List.length s' <= List.length s -> k1 s' c' = k2 s' c' :> option R).

Lemma star_loop_ext (r : regex) :
  (forall s c k1 k2, agree_upto s k1 k2 ->
     run uni_alnum r s c k1 = run uni_alnum r s c k2) ->
  forall fuel s c k1 k2, agree_upto s k1 k2 ->
    star_loop (run uni_alnum r) k1 fuel s c
    = star_loop (run uni_alnum r) k2 fuel s c.
Proof.
  intros Hr; induction fuel as [|fuel IH]; intros s c k1 k2 Hk; simpl.
  - apply Hk; lia.
  - rewrite (Hr s c _
               (fun s1 c1 =>
                  if List.length s1 <? List.length s
                  then star_loop (run uni_alnum r) k2 fuel s1 c1
                  else k2 s1 c1)).
    + rewrite (Hk s c); [reflexivity | lia].
    + intros s1 c1 Hle. destruct (List.length s1 <? List.length s).
      * apply IH. intros s' c' Hle'. apply Hk. lia.
      * apply Hk; lia.
Qed.

(** The matcher calls its continuation only on what is left of the
    input. *)
Lemma run_ext (r : regex) :
  forall s c k1 k2, agree_upto s k1 k2 ->
    run uni_alnum r s c k1 = run uni_alnum r s c k2.
Proof.
  induction r as [|cl|r1 IH1 r2 IH2|r1 IH1 r2 IH2|r IH|n r IH];
    intros s c k1 k2 Hk; cbn [run].
  - apply Hk; lia.
  - destruct s as [|x s]; [reflexivity|].
    destruct (cset_test uni_alnum cl x); [|reflexivity].
    apply Hk. simpl; lia.
  - apply IH1. intros s1 c1 Hle. apply IH2.
    intros s2 c2 Hle2. apply Hk. lia.
  - now rewrite (IH1 s c k1 k2 Hk), (IH2 s c k1 k2 Hk).
  - now apply star_loop_ext.
  - apply IH. intros s1 c1 Hle. apply Hk; lia.
Qed.

(** Any bound above the length of the input gives the same answer. *)
Lemma star_loop_fuel (r : regex) (k : str -> caps -> option R) :
  forall fuel1 fuel2 s c,
    List.length s < fuel1 -> List.length s < fuel2 ->
    star_loop (run uni_alnum r) k fuel1 s c
    = star_loop (run uni_alnum r) k fuel2 s c.
Proof.
  induction fuel1 as [|fuel1 IH]; intros [|fuel2] s c H1 H2; try lia.
  simpl.
  rewrite (@run_ext r s c _
             (fun s1 c1 =>
                if List.length s1 <? List.length s
                then star_loop (run uni_alnum r) k fuel2 s1 c1
                else k s1 c1)); [reflexivity|].
  intros s1 c1 _.
  destruct (List.length s1 <? List.length s) eqn:Hlt; [|reflexivity].
  apply Nat.ltb_lt in Hlt. apply IH; lia.
Qed.

End Fuel.

(** ** Reading a match of a pattern back into its pieces *)

Section Inversion.
Import Re Patterns Props.

Variable uni_alnum : N -> bool.

#[local] Abbreviation sem := (sem uni_alnum).
#[local] Abbreviation cset_test := (cset_test uni_alnum).

Lemma sem_cat_inv r1 r2 w c c' :
  sem (Cat r1 r2) w c c' ->
  exists w1 w2 c1, w = w1 ++ w2 /\ sem r1 w1 c c1 /\ sem r2 w2 c1 c'.
Proof. inversion 1; subst; eauto 6. Qed.

Lemma sem_alt_inv r1 r2 w c c' :
  sem (Alt r1 r2) w c c' -> sem r1 w c c' \/ sem r2 w c c'.
Proof. inversion 1; subst; auto. Qed.

Lemma sem_group_inv n r w c c' :
  sem (Group n r) w c c' -> exists c1, sem r w c c1 /\ c' = set_group n w c1.
Proof. inversion 1; subst; eauto. Qed.

Lemma sem_chr_inv cl w c c' :
  sem (Chr cl) w c c' -> exists x, w = [x] /\ cset_test cl x = true /\ c' = c.
Proof. inversion 1; subst; eauto. Qed.

Lemma sem_lit_inv a w c c' : sem (lit a) w c c' -> w = [chr a] /\ c' = c.
Proof.
  intros H; apply sem_chr_inv in H as (x & -> & Hx & ->).
  simpl in Hx. apply N.eqb_eq in Hx. now subst x.
Qed.

Lemma sem_star_chr_inv cl w c c' :
  sem (Star (Chr cl)) w c c' -> all_in (cset_test cl) w /\ c' = c.
Proof.
  intros H; remember (Star (Chr cl)) as r eqn:Hr.
  induction H; try discriminate Hr.
  - split; [constructor | reflexivity].
  - injection Hr as ->.
    apply sem_chr_inv in H as (x & -> & Hx & ->).
    destruct (IHsem2 eq_refl) as [Hall ->].
    split; [now constructor | reflexivity].
Qed.

Lemma sem_plus_chr_inv cl w c c' :
  sem (Plus (Chr cl)) w c c' ->
  w <> [] /\ all_in (cset_test cl) w /\ c' = c.
Proof.
  intros H; apply sem_cat_inv in H as (w1 & w2 & c1 & -> & H1 & H2).
  apply sem_chr_inv in H1 as (x & -> & Hx & ->).
  apply sem_star_chr_inv in H2 as [Hall ->].
  repeat split; [discriminate | now constructor].
Qed.

End Inversion.

Ltac sem_pieces :=
  repeat match goal with
    | H : Re.sem _ (Re.Plus (Re.Chr _)) _ _ _ |- _ =>
        apply sem_plus_chr_inv in H as (? & ? & ?)
    | H : Re.sem _ (Re.Star (Re.Chr _)) _ _ _ |- _ =>
        apply sem_star_chr_inv in H as (? & ?)
    | H : Re.sem _ (Patterns.lit _) _ _ _ |- _ =>
        apply sem_lit_inv in H as (? & ?)
    | H : Re.sem _ (Re.Group _ _) _ _ _ |- _ =>
        apply sem_group_inv in H as (? & H & ?)
    | H : Re.sem _ (Re.Cat _ _) _ _ _ |- _ =>
        apply sem_cat_inv in H as (? & ? & ? & ? & ? & ?)
    end.

Section Shapes.
Import Re Patterns Props.

Variable uni_alnum : N -> bool.

#[local] Abbreviation sem := (sem uni_alnum).

Lemma all_in_not_In (p : N -> bool) (w : str) (x : N) :
  all_in p w -> p x = false -> ~ In x w.
Proof.
  intros Hall Hx Hin.
  apply (proj1 (Forall_forall _ _) Hall) in Hin. congruence.
Qed.

Lemma keyword_inv w c c' :
  sem (Alt (Cat (lit "v") (Cat (lit "a") (lit "r")))
           (Cat (lit "f") (Cat (lit "i") (Cat (lit "n")
              (Cat (lit "a") (lit "l")))))) w c c' ->
  (w = codes "var" \/ w = codes "final") /\ c' = c.
Proof.
  intros H; apply sem_alt_inv in H as [H|H]; sem_pieces; subst;
    split; auto.
Qed.

(** A match of the for-each pattern, piece by piece. *)
Lemma pattern_shape w c c' :
  sem pattern_re w c c' ->
  exists ws1 ws2 kw ws3 v ws4 ws5 it,
    w = codes "for" ++ ws1 ++ codes "(" ++ ws2 ++ kw ++ ws3 ++ v ++ ws4
        ++ codes "in" ++ ws5 ++ it ++ codes ")"
    /\ all_in is_space ws1 /\ all_in is_space ws2
    /\ (kw = codes "var" \/ kw = codes "final")
    /\ (ws3 <> [] /\ all_in is_space ws3)
    /\ (v <> [] /\ all_in (is_word uni_alnum) v)
    /\ (ws4 <> [] /\ all_in is_space ws4)
    /\ (ws5 <> [] /\ all_in is_space ws5)
    /\ (it <> [] /\ all_in (fun x => negb (x =? chr ")")%N) it)
    /\ c' = set_group 3 it (set_group 2 v (set_group 1 kw c)).
Proof.
  unfold pattern_re, spaces, spaces1; intros H.
  apply sem_cat_inv in H as (w1 & t1 & c1 & -> & H1 & H).
  apply sem_cat_inv in H as (w2 & t2 & c2 & -> & H2 & H).
  apply sem_cat_inv in H as (w3 & t3 & c3 & -> & H3 & H).
  apply sem_cat_inv in H as (ws1 & t4 & c4 & -> & H4 & H).
  apply sem_cat_inv in H as (w5 & t5 & c5 & -> & H5 & H).
  apply sem_cat_inv in H as (ws2 & t6 & c6 & -> & H6 & H).
  apply sem_cat_inv in H as (kw & t7 & c7 & -> & H7 & H).
  apply sem_cat_inv in H as (ws3 & t8 & c8 & -> & H8 & H).
  apply sem_cat_inv in H as (v & t9 & c9 & -> & H9 & H).
  apply sem_cat_inv in H as (ws4 & t10 & c10 & -> & H10 & H).
  apply sem_cat_inv in H as (w11 & t11 & c11 & -> & H11 & H).
  apply sem_cat_inv in H as (w12 & t12 & c12 & -> & H12 & H).
  apply sem_cat_inv in H as (ws5 & t13 & c13 & -> & H13 & H).
  apply sem_cat_inv in H as (it & w15 & c14 & -> & H14 & H15).
  apply sem_group_inv in H7 as (c7' & H7 & ->).
  apply keyword_inv in H7 as [Hkw ->].
  apply sem_group_inv in H9 as (c9' & H9 & ->).
  apply sem_group_inv in H14 as (c14' & H14 & ->).
  sem_pieces; subst.
  exists ws1, ws2, kw, ws3, v, ws4, ws5, it.
  repeat split; auto.
  match goal with H : all_in _ it |- _ => revert H end.
  apply Forall_impl; intros x; simpl.
  now rewrite orb_false_r.
Qed.

(** A match of the split pattern, piece by piece. *)
Lemma split_shape w c c' :
  sem split_re w c c' ->
  exists x recv args,
    w = (x :: recv) ++ codes ".split(" ++ args ++ codes ")" /\ c' = c.
Proof.
  unfold split_re; intros H.
  apply sem_cat_inv in H as (recv & w' & c1 & -> & H1 & H).
  apply sem_plus_chr_inv in H1 as (Hne & _ & ->).
  destruct recv as [|x recv]; [contradiction|].
  do 7 (apply sem_cat_inv in H as (? & ? & ? & ? & ? & H)).
  apply sem_cat_inv in H as (args & ? & ? & ? & Hargs & H).
  sem_pieces; subst.
  now exists x, recv, args.
Qed.

End Shapes.

(** ** [re.match] and [re.search] *)

Section Matches.
Import Re Patterns Props.

Variable uni_alnum : N -> bool.

Lemma match_here_sound r i s m :
  match_here uni_alnum r i s = Some m ->
  exists rest,
    s = m_whole m ++ rest
    /\ sem uni_alnum r (m_whole m) (repeat None (ngroups r)) (m_slots m)
    /\ m_start m = i.
Proof.
  unfold match_here; intros H.
  apply run_sound in H as (w & rest & c' & -> & Hw & Hk).
  rewrite firstn_consumed in Hk. injection Hk as <-.
  now exists rest.
Qed.

Lemma scan_sound r s : forall i m,
  scan uni_alnum r i s = Some m ->
  exists pre rest,
    s = pre ++ m_whole m ++ rest
    /\ sem uni_alnum r (m_whole m) (repeat None (ngroups r)) (m_slots m)
    /\ m_start m = i + List.length pre.
Proof.
  induction s as [|x s IH]; intros i m H; simpl in H.
  - destruct (match_here uni_alnum r i []) as [m'|] eqn:Hm; [|discriminate].
    injection H as ->.
    apply match_here_sound in Hm as (rest & Hs & Hw & Hi).
    exists [], rest. simpl. now rewrite Nat.add_0_r.
  - destruct (match_here uni_alnum r i (x :: s)) as [m'|] eqn:Hm.
    + injection H as ->.
      apply match_here_sound in Hm as (rest & Hs & Hw & Hi).
      exists [], rest. simpl. now rewrite Nat.add_0_r.
    + apply IH in H as (pre & rest & -> & Hw & Hi).
      exists (x :: pre), rest. simpl.
      repeat split; [assumption | lia].
Qed.

Lemma compile_pattern : compile Script.pattern = Some pattern_re.
Proof. reflexivity. Qed.

Lemma compile_split_pattern : compile Script.split_pattern = Some split_re.
Proof. reflexivity. Qed.

Lemma search_pattern s :
  search uni_alnum Script.pattern s = Ok (scan uni_alnum pattern_re 0 s).
Proof. unfold search. now rewrite compile_pattern. Qed.

Lemma match_split_pattern s :
  match_ uni_alnum Script.split_pattern s
  = Ok (match_here uni_alnum split_re 0 s).
Proof. unfold match_. now rewrite compile_split_pattern. Qed.

(** What [re.search] finds with the for-each pattern. *)
Lemma search_pattern_sound s m :
  search uni_alnum Script.pattern s = Ok (Some m) ->
  exists pre rest w c',
    s = pre ++ w ++ rest /\ m = mkMatch (List.length pre) w c'
    /\ sem uni_alnum pattern_re w [None; None; None] c'.
Proof.
  rewrite search_pattern; intros H; injection H as H.
  apply scan_sound in H as (pre & rest & Hs & Hw & Hi).
  destruct m as [i w c']; simpl in *. subst i.
  now exists pre, rest, w, c'.
Qed.

Lemma search_pattern_slots s m :
  search uni_alnum Script.pattern s = Ok (Some m) ->
  exists g1 g2 g3, m_slots m = [g1; g2; g3].
Proof.
  intros H; apply search_pattern_sound in H as (pre & rest & w & c' & _ & -> & Hw).
  apply sem_slots in Hw. simpl in *.
  destruct c' as [|g1 [|g2 [|g3 [|]]]]; try discriminate.
  now exists g1, g2, g3.
Qed.

(** What [re.match] finds with the split pattern. *)
Lemma match_split_pattern_sound s m :
  match_ uni_alnum Script.split_pattern s = Ok (Some m) ->
  exists x recv args rest,
    s = (x :: recv) ++ codes ".split(" ++ args ++ codes ")" ++ rest
    /\ m_whole m = (x :: recv) ++ codes ".split(" ++ args ++ codes ")".
Proof.
  rewrite match_split_pattern; intros H; injection H as H.
  apply match_here_sound in H as (rest & Hs & Hw & _).
  apply split_shape in Hw as (x & recv & args & Hw & _).
  exists x, recv, args, rest. split; [|assumption].
  rewrite Hs, Hw. now rewrite <- !app_assoc.
Qed.

End Matches.

(** ** The in-token test decides the in-token property *)

Section InTokenFacts.
Import Re Props.

Variable uni_alnum : N -> bool.

Lemma skip_spaces_split (s : str) :
  exists ws, s = ws ++ skip_spaces s /\ all_in is_space ws.
Proof.
  induction s as [|x s (ws & Hs & Hws)]; simpl.
  - exists []. split; [reflexivity | constructor].
  - destruct (is_space x) eqn:Hx.
    + exists (x :: ws). split; [simpl; congruence | now constructor].
    + exists []. split; [reflexivity | constructor].
Qed.

Lemma skip_spaces_app (ws rest : str) :
  all_in is_space ws -> skip_spaces (ws ++ codes "in" ++ rest) = codes "in" ++ rest.
Proof.
  induction 1 as [|x ws Hx _ IH]; [reflexivity|].
  simpl. now rewrite Hx.
Qed.

Lemma has_in_tokenb_complete (s : str) :
  has_in_token uni_alnum s -> has_in_tokenb uni_alnum s = true.
Proof.
  intros (pre & w & ws & post & -> & Hw & Hall & Hws & Hsp).
  destruct (exists_last Hw) as (w0 & x & ->).
  destruct ws as [|y ws]; [contradiction|].
  apply Forall_app in Hall as [_ Hx]. inversion Hx as [|? ? Hx' _]; subst.
  inversion Hsp as [|? ? Hy Hsp']; subst.
  unfold has_in_tokenb.
  replace (pre ++ (w0 ++ [x]) ++ (y :: ws) ++ codes "in" ++ post)
    with ((pre ++ w0) ++ x :: y :: ws ++ codes "in" ++ post)
    by (now rewrite <- !app_assoc).
  apply occurs_app.
  unfold in_token_here. rewrite Hx', Hy, skip_spaces_app by assumption.
  reflexivity.
Qed.

Lemma has_in_tokenb_sound (s : str) :
  has_in_tokenb uni_alnum s = true -> has_in_token uni_alnum s.
Proof.
  intros H; apply occurs_split in H as (pre & suf & -> & H).
  destruct suf as [|x [|y s']]; try discriminate H.
  change (is_word uni_alnum x && is_space y
          && starts_with (codes "in") (skip_spaces s') = true) in H.
  apply andb_prop in H as [H Hin]. apply andb_prop in H as [Hx Hy].
  destruct (skip_spaces_split s') as (ws & Hs' & Hws).
  apply starts_with_split in Hin as [post Hin].
  exists pre, [x], (y :: ws), post. rewrite Hs', Hin.
  repeat split; try discriminate; repeat constructor; assumption.
Qed.

End InTokenFacts.

(** ** What the statements of the script write *)

Section Output.
Import Re Script Props.

Variable uni_alnum : N -> bool.

Lemma encodable_app (a b : str) :
  encodable (a ++ b) = encodable a && encodable b.
Proof. apply forallb_app. Qed.

Lemma encodable_unlines (ls : list str) :
  encodable (unlines ls) = forallb encodable ls.
Proof.
  induction ls as [|l ls IH]; [reflexivity|].
  unfold unlines in *; cbn [List.map List.concat forallb].
  rewrite !encodable_app, IH.
  change (encodable [10%N]) with true. now rewrite andb_true_r.
Qed.

(** A text between a label and a closing text, both ASCII, is encodable
    exactly when the text is. *)
Lemma encodable_quoted (label closing : string) (w : str) :
  encodable (codes label) = true -> encodable (codes closing) = true ->
  encodable (codes label ++ w ++ codes closing) = encodable w.
Proof.
  intros Hl Hc. rewrite !encodable_app, Hl, Hc. now rewrite andb_true_r.
Qed.

Lemma print_ok (s out : str) :
  encodable s = true -> print s out = (Ok tt, out ++ s ++ [10%N]).
Proof. intros H; unfold print. now rewrite H. Qed.

Lemma print_raises (s out : str) :
  encodable s = false -> print s out = (Raise UnicodeEncodeError, out).
Proof. intros H; unfold print. now rewrite H. Qed.

Lemma emits_print (s : str) :
  encodable s = true -> emits (print s) tt (s ++ [10%N]).
Proof. intros H out. now apply print_ok. Qed.

Lemma emits_lift {A} (a : A) : emits (lift (Ok a)) a [].
Proof. intros out; unfold lift. now rewrite app_nil_r. Qed.

Lemma emits_bind {A B} (m : IO A) (f : A -> IO B) a b o1 o2 :
  emits m a o1 -> emits (f a) b o2 -> emits (bind m f) b (o1 ++ o2).
Proof.
  intros Hm Hf out; unfold bind. rewrite Hm, Hf. now rewrite app_assoc.
Qed.

(** The pieces of a match of the for-each pattern are encodable when the
    match is. *)
Lemma header_pieces_encodable ws1 ws2 kw ws3 v ws4 ws5 it :
  encodable (codes "for" ++ ws1 ++ codes "(" ++ ws2 ++ kw ++ ws3 ++ v ++ ws4
             ++ codes "in" ++ ws5 ++ it ++ codes ")") = true ->
  encodable kw = true /\ encodable v = true /\ encodable it = true.
Proof.
  rewrite !encodable_app. intros H.
  repeat match type of H with
         | _ && _ = true => apply andb_prop in H as [? H]
         end.
  auto.
Qed.

(** Lines 4 to 14.  The text [a] to write is one line when nothing is
    found and four lines for a match; it is written whole, or, when it
    cannot be encoded, the first [print] raises and nothing is written. *)
Lemma for_each_test_runs (text : str) :
  exists a,
    (search uni_alnum pattern text = Ok None ->
     a = unlines [codes "No match found"])
    /\ (forall m, search uni_alnum pattern text = Ok (Some m) ->
        exists g1 g2 g3,
          m_slots m = [g1; g2; g3]
          /\ a = unlines [codes "Full match: '" ++ m_whole m ++ codes "'";
                          codes "Keyword: '" ++ fmt g1 ++ codes "'";
                          codes "Variable: '" ++ fmt g2 ++ codes "'";
                          codes "Iterable: '" ++ fmt g3 ++ codes "'"])
    /\ (encodable text = true -> encodable a = true)
    /\ (forall out,
          for_each_test uni_alnum text out
          = if encodable a then (Ok tt, out ++ a)
            else (Raise UnicodeEncodeError, out))
    /\ (forall m, search uni_alnum pattern text = Ok (Some m) ->
        encodable a = encodable (m_whole m)).
Proof.
  destruct (search uni_alnum pattern text) as [[m|]|e] eqn:Hs.
  - pose proof Hs as Hm.
    apply search_pattern_sound in Hm as (pre & rest & w & c' & Ht & -> & Hw).
    apply pattern_shape in Hw
      as (ws1 & ws2 & kw & ws3 & v & ws4 & ws5 & it & Ew & _ & _ & Hkw & _
          & _ & _ & _ & _ & ->).
    cbn [set_group set_slot] in Hs.
    set (l1 := codes "Full match: '" ++ w ++ codes "'").
    set (l2 := codes "Keyword: '" ++ kw ++ codes "'").
    set (l3 := codes "Variable: '" ++ v ++ codes "'").
    set (l4 := codes "Iterable: '" ++ it ++ codes "'").
    assert (E1 : encodable l1 = encodable w)
      by (now apply encodable_quoted).
    assert (E2 : encodable l2 = encodable kw)
      by (now apply encodable_quoted).
    assert (E3 : encodable l3 = encodable v)
      by (now apply encodable_quoted).
    assert (E4 : encodable l4 = encodable it)
      by (now apply encodable_quoted).
    assert (Ea : encodable (unlines [l1; l2; l3; l4]) = encodable w).
    { rewrite encodable_unlines. cbn [forallb]. rewrite E1, E2, E3, E4.
      destruct (encodable w) eqn:Hw; [|reflexivity].
      rewrite Ew in Hw.
      apply header_pieces_encodable in Hw as (-> & -> & ->). reflexivity. }
    exists (unlines [l1; l2; l3; l4]).
    split; [discriminate|]. split; [|split; [|split]].
    + intros m' Hm'; injection Hm' as <-.
      now exists (Some kw), (Some v), (Some it).
    + intros Htext. rewrite Ea. rewrite Ht, !encodable_app in Htext.
      apply andb_prop in Htext as [_ Htext].
      now apply andb_prop in Htext as [Htext _].
    + intros out. rewrite Ea.
      unfold for_each_test, bind, lift. rewrite Hs.
      cbn [group m_whole m_slots nth_error fmt]. fold l1 l2 l3 l4.
      destruct (encodable w) eqn:Hw.
      * pose proof Hw as Hp. rewrite Ew in Hp.
        apply header_pieces_encodable in Hp as (Pkw & Pv & Pit).
        rewrite <- E2 in Pkw.
        rewrite <- E1 in Hw. rewrite <- E3 in Pv. rewrite <- E4 in Pit.
        rewrite !print_ok by assumption.
        f_equal. unfold unlines; cbn [List.map List.concat].
        now rewrite <- !app_assoc, app_nil_r.
      * rewrite <- E1 in Hw. now rewrite print_raises.
    + intros m' Hm'; injection Hm' as <-. exact Ea.
  - exists (unlines [codes "No match found"]).
    split; [reflexivity|]. split; [discriminate|]. split; [reflexivity|].
    split; [|discriminate].
    intros out. unfold for_each_test, bind, lift. rewrite Hs.
    rewrite print_ok by reflexivity.
    change (encodable (unlines [codes "No match found"])) with true.
    cbv iota. unfold unlines; cbn [List.map List.concat].
    now rewrite app_nil_r.
  - rewrite search_pattern in Hs. discriminate.
Qed.

(** Lines 17 to 22.  One line either way, which holds the subject: it is
    written when the subject can be encoded, and otherwise [print] raises
    and nothing is written. *)
Lemma split_test_runs (iterable_text : str) :
  exists b,
    (match_ uni_alnum split_pattern iterable_text = Ok None ->
     b = unlines [codes "Split pattern doesn't match: '" ++ iterable_text
                  ++ codes "'"])
    /\ (forall m, match_ uni_alnum split_pattern iterable_text = Ok (Some m) ->
        b = unlines [codes "Split pattern matches: '" ++ iterable_text
                     ++ codes "' -> should return String"])
    /\ encodable b = encodable iterable_text
    /\ (forall out,
          split_test uni_alnum iterable_text out
          = if encodable iterable_text then (Ok tt, out ++ b)
            else (Raise UnicodeEncodeError, out)).
Proof.
  destruct (match_ uni_alnum split_pattern iterable_text) as [[m|]|e] eqn:Hs.
  - set (l := codes "Split pattern matches: '" ++ iterable_text
              ++ codes "' -> should return String").
    assert (El : encodable l = encodable iterable_text)
      by (now apply encodable_quoted).
    exists (unlines [l]).
    split; [discriminate|]. split; [reflexivity|]. split.
    + rewrite encodable_unlines. cbn [forallb]. now rewrite El, andb_true_r.
    + intros out. unfold split_test, bind, lift. rewrite Hs. fold l.
      destruct (encodable iterable_text) eqn:Hi; rewrite <- El in Hi.
      * rewrite print_ok by assumption.
        f_equal. unfold unlines; cbn [List.map List.concat].
        now rewrite app_nil_r.
      * now rewrite print_raises.
  - set (l := codes "Split pattern doesn't match: '" ++ iterable_text
              ++ codes "'").
    assert (El : encodable l = encodable iterable_text)
      by (now apply encodable_quoted).
    exists (unlines [l]).
    split; [reflexivity|]. split; [discriminate|]. split.
    + rewrite encodable_unlines. cbn [forallb]. now rewrite El, andb_true_r.
    + intros out. unfold split_test, bind, lift. rewrite Hs. fold l.
      destruct (encodable iterable_text) eqn:Hi; rewrite <- El in Hi.
      * rewrite print_ok by assumption.
        f_equal. unfold unlines; cbn [List.map List.concat].
        now rewrite app_nil_r.
      * now rewrite print_raises.
  - rewrite match_split_pattern in Hs. discriminate.
Qed.

End Output.

(** ** Properties of the script and of its two patterns *)

Section Claims.
Import Re Script Patterns Props.

Variable uni_alnum : N -> bool.

Lemma all_in_count (p : N -> bool) (w : str) (x : N) :
  all_in p w -> p x = false -> count_occ N.eq_dec w x = 0.
Proof.
  intros Hall Hx. apply count_occ_not_In. eapply all_in_not_In; eassumption.
Qed.

Lemma not_rparen_count (w : str) :
  all_in (fun x => negb (x =? chr ")")%N) w ->
  count_occ N.eq_dec w (chr ")") = 0.
Proof. intros H; eapply all_in_count; [exact H | reflexivity]. Qed.

(** C1 (amended): [re.search] with Pattern A on Input String A finds a
    match whose pieces are: full match [for (var char in 'hello'.split('']
    followed by one closing parenthesis, keyword [var], variable [char],
    iterable ['hello'.split(''] -- the iterable stops before the first
    closing parenthesis, which ends the match. *)
Theorem search_text_groups :
  exists m,
    search uni_alnum pattern text = Ok (Some m)
    /\ group m 0 = Ok (Some (codes "for (var char in 'hello'.split('')"))
    /\ group m 1 = Ok (Some (codes "var"))
    /\ group m 2 = Ok (Some (codes "char"))
    /\ group m 3 = Ok (Some (codes "'hello'.split(''")).
Proof.
  exists (mkMatch 0 (codes "for (var char in 'hello'.split('')")
            [Some (codes "var"); Some (codes "char");
             Some (codes "'hello'.split(''")]).
  split; [vm_compute; reflexivity|].
  repeat split.
Qed.

(** C2: the script on its two literals writes five lines: the four
    labelled pieces of the match, each between single quotes, and the line
    saying that the split pattern matches Input String B. *)
Theorem debug_regex_output :
  exists m g1 g2 g3,
    search uni_alnum pattern text = Ok (Some m)
    /\ group m 1 = Ok g1 /\ group m 2 = Ok g2 /\ group m 3 = Ok g3
    /\ debug_regex uni_alnum []
       = (Ok tt,
          unlines
            [codes "Full match: '" ++ m_whole m ++ codes "'";
             codes "Keyword: '" ++ fmt g1 ++ codes "'";
             codes "Variable: '" ++ fmt g2 ++ codes "'";
             codes "Iterable: '" ++ fmt g3 ++ codes "'";
             codes "Split pattern matches: ''hello'.split('')' -> should return String"])
    /\ debug_regex uni_alnum []
       = (Ok tt,
          unlines
            [codes "Full match: 'for (var char in 'hello'.split('')'";
             codes "Keyword: 'var'";
             codes "Variable: 'char'";
             codes "Iterable: ''hello'.split('''";
             codes "Split pattern matches: ''hello'.split('')' -> should return String"]).
Proof.
  exists (mkMatch 0 (codes "for (var char in 'hello'.split('')")
            [Some (codes "var"); Some (codes "char");
             Some (codes "'hello'.split(''")]).
  exists (Some (codes "var")), (Some (codes "char")),
    (Some (codes "'hello'.split(''")).
  split; [vm_compute; reflexivity|].
  repeat split; vm_compute; reflexivity.
Qed.

(** C3: [re.match] with Pattern B on Input String B succeeds, and the
    match covers the whole string. *)
Theorem split_pattern_matches_iterable_text :
  exists m,
    match_ uni_alnum split_pattern iterable_text = Ok (Some m)
    /\ m_start m = 0 /\ m_whole m = iterable_text.
Proof.
  exists (mkMatch 0 iterable_text []).
  split; [vm_compute; reflexivity | split; reflexivity].
Qed.

(** C4: on a string that does not contain [.split(], [re.match] with
    Pattern B finds nothing. *)
Theorem split_pattern_needs_split (s : str) :
  contains (codes ".split(") s = false ->
  match_ uni_alnum split_pattern s = Ok None.
Proof.
  intros Hno.
  destruct (match_ uni_alnum split_pattern s) as [[m|]|e] eqn:Hm.
  - apply match_split_pattern_sound in Hm
      as (x & recv & args & rest & -> & _).
    rewrite contains_app in Hno. discriminate.
  - reflexivity.
  - rewrite match_split_pattern in Hm. discriminate.
Qed.

(** C5: on a string with no occurrence of the token [in] preceded by an
    identifier and whitespace, [re.search] with Pattern A finds nothing. *)
Theorem pattern_needs_in_token (s : str) :
  ~ has_in_token uni_alnum s ->
  search uni_alnum pattern s = Ok None.
Proof.
  intros Hno.
  destruct (search uni_alnum pattern s) as [[m|]|e] eqn:Hm.
  - exfalso; apply Hno.
    apply search_pattern_sound in Hm as (pre & rest & w & c' & -> & _ & Hw).
    apply pattern_shape in Hw
      as (ws1 & ws2 & kw & ws3 & v & ws4 & ws5 & it & -> & _ & _ & _ & _
          & (Hv & Hword) & (Hws & Hsp) & _).
    exists (pre ++ codes "for" ++ ws1 ++ codes "(" ++ ws2 ++ kw ++ ws3),
      v, ws4, (ws5 ++ it ++ codes ")" ++ rest).
    repeat split; try assumption.
    now rewrite <- !app_assoc.
  - reflexivity.
  - rewrite search_pattern in Hm. discriminate.
Qed.

(** C6: some string goes on after a closing parenthesis and is still
    matched by [re.match] with Pattern B: the match ends at that
    parenthesis and leaves the rest of the string out. *)
Theorem split_pattern_prefix_match :
  exists (s : str) (m : Match) (before trailing : str),
    match_ uni_alnum split_pattern s = Ok (Some m)
    /\ m_whole m = before ++ codes ")"
    /\ s = m_whole m ++ trailing
    /\ trailing <> [].
Proof.
  exists (codes "a.split(b) + c"), (mkMatch 0 (codes "a.split(b)") []),
    (codes "a.split(b"), (codes " + c").
  repeat split; try (vm_compute; reflexivity). discriminate.
Qed.


(** C9: whenever [re.search] with Pattern A finds a match, the third group
    holds a text without closing parenthesis, and the matched text is a
    text without closing parenthesis followed by one: it contains exactly
    one, its last character. *)
Theorem iterable_has_no_rparen (s : str) (m : Match) :
  search uni_alnum pattern s = Ok (Some m) ->
  exists it body,
    group m 3 = Ok (Some it)
    /\ ~ In (chr ")") it
    /\ m_whole m = body ++ [chr ")"]
    /\ ~ In (chr ")") body
    /\ count_occ N.eq_dec (m_whole m) (chr ")") = 1.
Proof.
  intros Hm.
  apply search_pattern_sound in Hm as (pre & rest & w & c' & _ & -> & Hw).
  apply pattern_shape in Hw
    as (ws1 & ws2 & kw & ws3 & v & ws4 & ws5 & it & -> & H1 & H2 & Hkw
        & (_ & H3) & (_ & Hv) & (_ & H4) & (_ & H5) & (_ & Hit) & ->).
  assert (Hsp : is_space (chr ")") = false) by reflexivity.
  assert (Hwd : is_word uni_alnum (chr ")") = false) by reflexivity.
  pose proof (all_in_count _ H1 Hsp) as C1.
  pose proof (all_in_count _ H2 Hsp) as C2.
  pose proof (all_in_count _ H3 Hsp) as C3.
  pose proof (all_in_count _ Hv Hwd) as Cv.
  pose proof (all_in_count _ H4 Hsp) as C4.
  pose proof (all_in_count _ H5 Hsp) as C5.
  pose proof (not_rparen_count Hit) as Cit.
  assert (Ckw : count_occ N.eq_dec kw (chr ")") = 0)
    by (destruct Hkw as [-> | ->]; reflexivity).
  set (body := codes "for" ++ ws1 ++ codes "(" ++ ws2 ++ kw ++ ws3 ++ v
               ++ ws4 ++ codes "in" ++ ws5 ++ it).
  assert (Cbody : count_occ N.eq_dec body (chr ")") = 0).
  { unfold body. rewrite !count_occ_app, C1, C2, C3, Cv, C4, C5, Cit, Ckw.
    reflexivity. }
  assert (Hw : codes "for" ++ ws1 ++ codes "(" ++ ws2 ++ kw ++ ws3 ++ v
               ++ ws4 ++ codes "in" ++ ws5 ++ it ++ codes ")"
               = body ++ [chr ")"])
    by (unfold body; now rewrite <- !app_assoc).
  exists it, body. cbn [m_whole]. rewrite Hw.
  split; [reflexivity|].
  split; [now apply count_occ_not_In with (eq_dec := N.eq_dec)|].
  split; [reflexivity|].
  split; [now apply count_occ_not_In with (eq_dec := N.eq_dec)|].
  rewrite count_occ_app, Cbody. reflexivity.
Qed.

(** C10: on a string whose only occurrence of [.split(] is at offset
    zero, [re.match] with Pattern B finds nothing: a receiver of at least
    one character must come first. *)
Theorem split_pattern_needs_receiver (s : str) :
  positions (codes ".split(") s = [0] ->
  match_ uni_alnum split_pattern s = Ok None.
Proof.
  intros Hpos.
  destruct (match_ uni_alnum split_pattern s) as [[m|]|e] eqn:Hm.
  - apply match_split_pattern_sound in Hm
      as (x & recv & args & rest & -> & _).
    pose proof (positions_from_app (codes ".split(") (x :: recv)
                  (args ++ codes ")" ++ rest) 0) as Hin.
    unfold positions in Hpos. rewrite Hpos in Hin.
    destruct Hin as [Hin | []]. discriminate Hin.
  - reflexivity.
  - rewrite match_split_pattern in Hm. discriminate.
Qed.

End Claims.

Section Runs.
Import Re Script Props.

(** The output of the script as written, under any table and after any
    earlier output. *)
Lemma debug_regex_emits (uni_alnum : N -> bool) :
  emits (debug_regex uni_alnum) tt
    (unlines
       [codes "Full match: 'for (var char in 'hello'.split('')'";
        codes "Keyword: 'var'";
        codes "Variable: 'char'";
        codes "Iterable: ''hello'.split('''";
        codes "Split pattern matches: ''hello'.split('')' -> should return String"]).
Proof.
  destruct (for_each_test_runs uni_alnum text)
    as (a & _ & Ha1 & Hat & Ha & _).
  destruct (split_test_runs uni_alnum iterable_text)
    as (b & _ & Hb1 & _ & Hb).
  assert (Hs : search uni_alnum pattern text
               = Ok (Some (mkMatch 0
                       (codes "for (var char in 'hello'.split('')")
                       [Some (codes "var"); Some (codes "char");
                        Some (codes "'hello'.split(''")])))
    by (vm_compute; reflexivity).
  assert (Hm : match_ uni_alnum split_pattern iterable_text
               = Ok (Some (mkMatch 0 iterable_text [])))
    by (vm_compute; reflexivity).
  destruct (Ha1 _ Hs) as (g1 & g2 & g3 & Hg & Ea).
  injection Hg as <- <- <-.
  pose proof (Hb1 _ Hm) as Eb.
  intros out. unfold debug_regex, script, bind.
  rewrite Ha, (Hat eq_refl), Hb.
  change (encodable iterable_text) with true. cbv iota.
  rewrite Ea, Eb, <- app_assoc.
  do 2 f_equal.
Qed.

(** C8: two runs of the script as written complete without an exception
    and write the same five lines, whatever the table of the interpreter
    and whatever was on the output before.  And on any two subject
    strings that can be encoded, as the two literals can, the script
    completes without an exception for either outcome of either match,
    having written the lines of these outcomes.  (The script is a total
    function of its inputs: every run ends.) *)
Theorem debug_regex_deterministic :
  (forall (table1 table2 : N -> bool) (out1 out2 : str),
     let five :=
       unlines
         [codes "Full match: 'for (var char in 'hello'.split('')'";
          codes "Keyword: 'var'";
          codes "Variable: 'char'";
          codes "Iterable: ''hello'.split('''";
          codes "Split pattern matches: ''hello'.split('')' -> should return String"]
     in
     debug_regex table1 out1 = (Ok tt, out1 ++ five)
     /\ debug_regex table2 out2 = (Ok tt, out2 ++ five))
  /\ (forall (table : N -> bool) (text iterable_text out : str),
        encodable text = true -> encodable iterable_text = true ->
        exists a b,
          script table text iterable_text out = (Ok tt, out ++ a ++ b)
          /\ (search table pattern text = Ok None
              /\ a = unlines [codes "No match found"]
              \/ exists m g1 g2 g3,
                   search table pattern text = Ok (Some m)
                   /\ m_slots m = [g1; g2; g3]
                   /\ a = unlines
                            [codes "Full match: '" ++ m_whole m ++ codes "'";
                             codes "Keyword: '" ++ fmt g1 ++ codes "'";
                             codes "Variable: '" ++ fmt g2 ++ codes "'";
                             codes "Iterable: '" ++ fmt g3 ++ codes "'"])
          /\ (match_ table split_pattern iterable_text = Ok None
              /\ b = unlines [codes "Split pattern doesn't match: '"
                              ++ iterable_text ++ codes "'"]
              \/ (exists m,
                    match_ table split_pattern iterable_text = Ok (Some m))
                 /\ b = unlines [codes "Split pattern matches: '"
                                 ++ iterable_text
                                 ++ codes "' -> should return String"])).
Proof.
  split.
  - intros table1 table2 out1 out2 five. split.
    + apply (debug_regex_emits table1).
    + apply (debug_regex_emits table2).
  - intros table text iterable_text out Ht Hi.
    destruct (for_each_test_runs table text)
      as (a & Ha0 & Ha1 & Hat & Ha & _).
    destruct (split_test_runs table iterable_text)
      as (b & Hb0 & Hb1 & _ & Hb).
    exists a, b. split; [|split].
    + unfold script, bind. rewrite Ha, (Hat Ht), Hb, Hi.
      now rewrite app_assoc.
    + destruct (search table pattern text) as [[m|]|e] eqn:Hs.
      * right. destruct (Ha1 m eq_refl) as (g1 & g2 & g3 & Hg & Ea).
        now exists m, g1, g2, g3.
      * left. split; [reflexivity | now apply Ha0].
      * rewrite search_pattern in Hs. discriminate.
    + destruct (match_ table split_pattern iterable_text)
        as [[m|]|e] eqn:Hm.
      * right. split; [now exists m | now apply (Hb1 m)].
      * left. split; [reflexivity | now apply Hb0].
      * rewrite match_split_pattern in Hm. discriminate.
Qed.

End Runs.

(** ** The properties at concrete inputs *)

Section Examples.
Import Re Script Props.

(** The match on Input String A is not the balanced text
    [for (var char in 'hello'.split(''))] with iterable
    ['hello'.split('')]: the third group cannot hold the closing
    parenthesis of [split('')], so the match ends one character
    earlier. *)
Lemma search_text_not_balanced :
  ~ exists m,
      search ascii_only pattern text = Ok (Some m)
      /\ group m 0 = Ok (Some (codes "for (var char in 'hello'.split(''))"))
      /\ group m 1 = Ok (Some (codes "var"))
      /\ group m 2 = Ok (Some (codes "char"))
      /\ group m 3 = Ok (Some (codes "'hello'.split('')")).
Proof.
  intros (m & Hs & H0 & _).
  vm_compute in Hs. injection Hs as <-.
  vm_compute in H0. discriminate H0.
Qed.

Lemma split_pattern_needs_split_witness :
  contains (codes ".split(") (codes "'hello'.join('')") = false
  /\ match_ ascii_only split_pattern (codes "'hello'.join('')") = Ok None.
Proof.
  split; [reflexivity|].
  apply (@split_pattern_needs_split ascii_only (codes "'hello'.join('')")).
  reflexivity.
Defined.

Lemma pattern_needs_in_token_witness :
  ~ has_in_token ascii_only (codes "for (var x of xs) {}")
  /\ search ascii_only pattern (codes "for (var x of xs) {}") = Ok None.
Proof.
  assert (H : ~ has_in_token ascii_only (codes "for (var x of xs) {}")).
  { intros H. apply has_in_tokenb_complete in H.
    vm_compute in H. discriminate H. }
  split; [exact H|].
  exact (@pattern_needs_in_token ascii_only (codes "for (var x of xs) {}") H).
Defined.


Lemma debug_regex_deterministic_witness :
  exists a b,
    script ascii_only (codes "for (final x in xs) {}") (codes "xs") []
    = (Ok tt, a ++ b)
    /\ a <> unlines [codes "No match found"]
    /\ b = unlines [codes "Split pattern doesn't match: 'xs'"].
Proof.
  destruct (proj2 debug_regex_deterministic ascii_only
              (codes "for (final x in xs) {}") (codes "xs") []
              eq_refl eq_refl)
    as (a & b & Hrun & Ha & Hb).
  exists a, b. split; [exact Hrun|]. split.
  - destruct Ha as [[Hs _] | (m & g1 & g2 & g3 & _ & _ & ->)].
    + vm_compute in Hs. discriminate Hs.
    + discriminate.
  - destruct Hb as [[_ Hb] | [(m & Hm) _]].
    + exact Hb.
    + vm_compute in Hm. discriminate Hm.
Defined.

Lemma iterable_has_no_rparen_witness :
  exists it body,
    it = codes "'hello'.split(''"
    /\ body ++ [chr ")"] = codes "for (var char in 'hello'.split('')"
    /\ ~ In (chr ")") it /\ ~ In (chr ")") body.
Proof.
  destruct (@iterable_has_no_rparen ascii_only text
              (mkMatch 0 (codes "for (var char in 'hello'.split('')")
                 [Some (codes "var"); Some (codes "char");
                  Some (codes "'hello'.split(''")])
              eq_refl)
    as (it & body & Hg & Hit & Hw & Hbody & _).
  exists it, body. injection Hg as <-.
  repeat split; [symmetry; exact Hw | exact Hit | exact Hbody].
Defined.

Lemma split_pattern_needs_receiver_witness :
  positions (codes ".split(") (codes ".split(',')") = [0]
  /\ match_ ascii_only split_pattern (codes ".split(',')") = Ok None.
Proof.
  split; [reflexivity|].
  apply (@split_pattern_needs_receiver ascii_only (codes ".split(',')")).
  reflexivity.
Defined.

End Examples.

(** ** The matcher finds a match whenever the pattern has one *)

Section Completeness.
Import Re Props.

Variable uni_alnum : N -> bool.

#[local] Abbreviation sem := (sem uni_alnum).
#[local] Abbreviation run := (run uni_alnum).

(** If [r] matches a word at the front of the input and the continuation
    accepts what follows that word whatever the capture slots, the
    matcher answers. *)
Lemma run_complete (R : Type) r w c c' :
  sem r w c c' ->
  forall (s' : str) (c0 : caps) (k : str -> caps -> option R),
    (forall c1, k s' c1 <> None) ->
    run r (w ++ s') c0 k <> None.
Proof.
  induction 1 as [c|cl x c Hx|r1 r2 w1 w2 c c1 c2 _ IH1 _ IH2
                  |r1 r2 w c c' _ IH|r1 r2 w c c' _ IH|r c
                  |r w1 w2 c c1 c2 _ IH1 _ IH2|n r w c c1 _ IH];
    intros s' c0 k Hk; cbn [Re.run].
  - apply Hk.
  - simpl. rewrite Hx. apply Hk.
  - rewrite <- app_assoc. apply IH1. intros c1'. now apply IH2.
  - specialize (IH s' c0 k Hk).
    destruct (run r1 (w ++ s') c0 k); [discriminate | contradiction].
  - destruct (run r1 (w ++ s') c0 k); [discriminate | now apply IH].
  - simpl.
    destruct (run r s' c0 _); [discriminate | apply Hk].
  - destruct w1 as [|x w1]; [now apply IH2|].
    change (star_loop (run r) k (S (List.length (((x :: w1) ++ w2) ++ s')))
              (((x :: w1) ++ w2) ++ s') c0 <> None).
    cbn [star_loop].
    match goal with
    | |- match ?body with _ => _ end <> None =>
        assert (Hbody : body <> None); [|destruct body; [discriminate|contradiction]]
    end.
    rewrite <- app_assoc. apply IH1. intros c1'.
    assert (Hlt : List.length (w2 ++ s')
                  < List.length ((x :: w1) ++ w2 ++ s'))
      by (rewrite (length_app (x :: w1)); simpl; lia).
    rewrite (proj2 (Nat.ltb_lt _ _) Hlt).
    rewrite (@star_loop_fuel uni_alnum R r k _
               (S (List.length (w2 ++ s'))) (w2 ++ s') c1') by lia.
    apply (IH2 s' c1' k Hk).
  - apply IH. intros c1'. apply Hk.
Qed.

Lemma match_here_complete r i w rest c c' :
  sem r w c c' -> match_here uni_alnum r i (w ++ rest) <> None.
Proof.
  intros Hw; unfold match_here.
  apply (run_complete Hw). discriminate.
Qed.

(** The scan stops at the first offset where the pattern matches. *)
Lemma scan_leftmost r w c c' (Hw : sem r w c c') :
  forall pre rest i,
    exists m, scan uni_alnum r i (pre ++ w ++ rest) = Some m
              /\ m_start m <= i + List.length pre.
Proof.
  induction pre as [|x pre IH]; intros rest i.
  - pose proof (@match_here_complete r i w rest c c' Hw) as Hm.
    change ([] ++ w ++ rest) with (w ++ rest).
    destruct (match_here uni_alnum r i (w ++ rest)) as [m|] eqn:E;
      [|contradiction].
    exists m. split.
    + destruct (w ++ rest); simpl; now rewrite E.
    + apply match_here_sound in E as (_ & _ & _ & ->). lia.
  - simpl.
    destruct (match_here uni_alnum r i (x :: pre ++ w ++ rest)) as [m|] eqn:E.
    + exists m. split; [reflexivity|].
      apply match_here_sound in E as (_ & _ & _ & ->). lia.
    + destruct (IH rest (S i)) as (m & Hm & Hle).
      exists m. split; [assumption | lia].
Qed.

End Completeness.

(** ** Building a match of a pattern from its pieces *)

Section Intro.
Import Re Patterns Props.

Variable uni_alnum : N -> bool.

#[local] Abbreviation sem := (sem uni_alnum).
#[local] Abbreviation cset_test := (cset_test uni_alnum).

Lemma sem_star_chr_intro cl w c :
  all_in (cset_test cl) w -> sem (Star (Chr cl)) w c c.
Proof.
  induction 1 as [|x w Hx _ IH]; [constructor|].
  apply (sem_star_cons (w1 := [x]) (w2 := w) (c1 := c));
    [now constructor | exact IH].
Qed.

Lemma sem_plus_chr_intro cl w c :
  w <> [] -> all_in (cset_test cl) w -> sem (Plus (Chr cl)) w c c.
Proof.
  intros Hne Hall. destruct w as [|x w]; [contradiction|].
  inversion Hall as [|? ? Hx Hw]; subst.
  apply (sem_cat (w1 := [x]) (w2 := w) (c1 := c));
    [now constructor | now apply sem_star_chr_intro].
Qed.

Lemma sem_lit_intro a c : sem (lit a) [chr a] c c.
Proof. constructor. apply N.eqb_refl. Qed.

Lemma sem_lit_cons a r w c c' :
  sem r w c c' -> sem (Cat (lit a) r) (chr a :: w) c c'.
Proof.
  intros H. apply (sem_cat (w1 := [chr a]) (w2 := w) (c1 := c));
    [apply sem_lit_intro | exact H].
Qed.

Lemma sem_keyword kw c :
  kw = codes "var" \/ kw = codes "final" ->
  sem (Alt (Cat (lit "v") (Cat (lit "a") (lit "r")))
           (Cat (lit "f") (Cat (lit "i") (Cat (lit "n")
              (Cat (lit "a") (lit "l")))))) kw c c.
Proof.
  intros [-> | ->].
  - apply sem_alt_l. do 2 apply sem_lit_cons. apply sem_lit_intro.
  - apply sem_alt_r. do 4 apply sem_lit_cons. apply sem_lit_intro.
Qed.

(** A for-each header is matched by the for-each pattern, which records
    its keyword, variable and iterable. *)
Lemma header_sem w kw v it c :
  for_each_header uni_alnum w kw v it ->
  sem pattern_re w c (set_group 3 it (set_group 2 v (set_group 1 kw c))).
Proof.
  intros (ws1 & ws2 & ws3 & ws4 & ws5 & -> & H1 & H2 & Hkw & (N3 & H3)
          & (Nv & Hv) & (N4 & H4) & (N5 & H5) & (Nit & Hit)).
  unfold pattern_re, spaces, spaces1.
  do 3 apply sem_lit_cons.
  eapply sem_cat; [now apply sem_star_chr_intro|].
  apply sem_lit_cons.
  eapply sem_cat; [now apply sem_star_chr_intro|].
  apply sem_cat with (c1 := set_group 1 kw c);
    [apply sem_group; now apply sem_keyword|].
  apply sem_cat with (c1 := set_group 1 kw c);
    [now apply sem_plus_chr_intro|].
  apply sem_cat with (c1 := set_group 2 v (set_group 1 kw c));
    [apply sem_group; now apply sem_plus_chr_intro|].
  apply sem_cat with (c1 := set_group 2 v (set_group 1 kw c));
    [now apply sem_plus_chr_intro|].
  do 2 apply sem_lit_cons.
  apply sem_cat with (c1 := set_group 2 v (set_group 1 kw c));
    [now apply sem_plus_chr_intro|].
  apply sem_cat with (c1 := set_group 3 it (set_group 2 v (set_group 1 kw c)));
    [|apply sem_lit_intro].
  apply sem_group. apply sem_plus_chr_intro; [assumption|].
  revert Hit. apply Forall_impl. intros x Hx; simpl.
  now rewrite orb_false_r.
Qed.

(** A call of [split] is matched by the split pattern. *)
Lemma split_call_sem w c : split_call w -> sem split_re w c c.
Proof.
  intros (x & recv & args & -> & Hrecv & Hargs).
  unfold split_re.
  apply sem_cat with (c1 := c);
    [apply sem_plus_chr_intro; [discriminate | exact Hrecv]|].
  do 7 apply sem_lit_cons.
  apply sem_cat with (c1 := c);
    [now apply sem_star_chr_intro | apply sem_lit_intro].
Qed.

(** A match of the split pattern is a call of [split]. *)
Lemma sem_split_call w c c' : sem split_re w c c' -> split_call w /\ c' = c.
Proof.
  unfold split_re; intros H.
  apply sem_cat_inv in H as (recv & w' & c1 & -> & H1 & H).
  apply sem_plus_chr_inv in H1 as (Hne & Hrecv & ->).
  destruct recv as [|x recv]; [contradiction|].
  do 7 (apply sem_cat_inv in H as (? & ? & ? & ? & ? & H)).
  apply sem_cat_inv in H as (args & ? & ? & ? & Hargs & H).
  apply sem_star_chr_inv in Hargs as (Hargs & ?).
  sem_pieces; subst.
  split; [|reflexivity].
  now exists x, recv, args.
Qed.

End Intro.

(** ** A greedy [.*] followed by a closing parenthesis *)

Section Greedy.
Import Re Patterns Props.

Variable uni_alnum : N -> bool.
Variable R : Type.

#[local] Abbreviation run := (run uni_alnum).

Lemma run_cat_sound r1 r2 s c (k : str -> caps -> option R) res :
  run (Cat r1 r2) s c k = Some res ->
  exists w s1 c1,
    s = w ++ s1 /\ sem uni_alnum r1 w c c1 /\ run r2 s1 c1 k = Some res.
Proof. intros H. cbn [Re.run] in H. now apply run_sound in H. Qed.

Lemma run_lit a s c (k : str -> caps -> option R) :
  run (lit a) s c k
  = match s with
    | x :: s' => if (x =? chr a)%N then k s' c else None
    | [] => None
    end.
Proof. reflexivity. Qed.

Lemma run_star_chr_nil cl c (k : str -> caps -> option R) :
  run (Star (Chr cl)) [] c k = k [] c.
Proof. reflexivity. Qed.

(** One more character if the class has it, and only then the rest of the
    pattern. *)
Lemma run_star_chr_cons cl x s c (k : str -> caps -> option R) :
  run (Star (Chr cl)) (x :: s) c k
  = if cset_test uni_alnum cl x
    then match run (Star (Chr cl)) s c k with
         | Some res => Some res
         | None => k (x :: s) c
         end
    else k (x :: s) c.
Proof.
  cbn [Re.run]. cbn [star_loop Re.run].
  destruct (cset_test uni_alnum cl x); [|reflexivity].
  assert (Hlt : (List.length s <? List.length (x :: s)) = true)
    by (apply Nat.ltb_lt; simpl; lia).
  now rewrite Hlt.
Qed.

Variable kf : str -> caps -> option R.
Hypothesis kf_total : forall s c, kf s c <> None.

#[local] Abbreviation then_rparen :=
  (fun (s1 : str) (c1 : caps) => run (lit ")") s1 c1 kf).

Lemma star_any_none : forall s c,
  run (Star (Chr CAny)) s c then_rparen = None ->
  forall b d, s = b ++ chr ")" :: d -> ~ line b.
Proof.
  induction s as [|x s IH]; intros c H b d Hs Hb.
  - destruct b; discriminate Hs.
  - rewrite run_star_chr_cons in H.
    destruct b as [|y b]; cbn [app] in Hs; injection Hs as -> Hs.
    + change (cset_test uni_alnum CAny (chr ")")) with true in H.
      cbv beta iota in H.
      destruct (run (Star (Chr CAny)) s c then_rparen);
        [discriminate|].
      change (kf s c = None) in H. now apply kf_total in H.
    + apply Forall_cons_iff in Hb as [Hx Hb'].
      change (cset_test uni_alnum CAny y) with (negb (y =? 10)%N) in H.
      rewrite Hx in H.
      destruct (run (Star (Chr CAny)) s c then_rparen) eqn:E;
        [discriminate|].
      exact (IH c E b d Hs Hb').
Qed.

(** The closing parenthesis taken is the last one of the line. *)
Lemma star_any_last : forall s c res,
  run (Star (Chr CAny)) s c then_rparen = Some res ->
  exists a s2,
    s = a ++ chr ")" :: s2 /\ line a /\ kf s2 c = Some res
    /\ forall b d, s2 = b ++ chr ")" :: d -> ~ line b.
Proof.
  induction s as [|x s IH]; intros c res H.
  - rewrite run_star_chr_nil, run_lit in H. discriminate.
  - rewrite run_star_chr_cons in H.
    assert (Hhere : then_rparen (x :: s) c = Some res ->
                    run (Star (Chr CAny)) s c then_rparen = None ->
                    exists a s2,
                      x :: s = a ++ chr ")" :: s2 /\ line a
                      /\ kf s2 c = Some res
                      /\ forall b d, s2 = b ++ chr ")" :: d -> ~ line b).
    { intros Hk Hnone. rewrite run_lit in Hk.
      destruct (x =? chr ")")%N eqn:Hx; [|discriminate].
      apply N.eqb_eq in Hx; subst x.
      exists [], s. repeat split; [constructor | assumption |].
      now apply star_any_none with (c := c). }
    destruct (cset_test uni_alnum CAny x) eqn:Hx.
    + destruct (run (Star (Chr CAny)) s c then_rparen) as [res'|] eqn:E.
      * injection H as ->.
        destruct (IH c res E) as (a & s2 & -> & Ha & Hk & Hlast).
        exists (x :: a), s2. repeat split; try assumption.
        now constructor.
      * now apply Hhere.
    + rewrite run_lit in H.
      destruct (x =? chr ")")%N eqn:Hp; [|discriminate].
      apply N.eqb_eq in Hp; subst x. discriminate Hx.
Qed.

End Greedy.

(** ** Further properties of the two patterns *)

Section Further.
Import Re Script Patterns Props.

Variable uni_alnum : N -> bool.

(** X1: the iterable that the for-each pattern captures is never accepted
    by the split pattern, whatever the text: it holds no closing
    parenthesis, and the split pattern needs one. *)
Theorem iterable_never_split_call (s : str) (m : Match) :
  search uni_alnum pattern s = Ok (Some m) ->
  exists it,
    group m 3 = Ok (Some it)
    /\ match_ uni_alnum split_pattern it = Ok None.
Proof.
  intros Hm.
  apply search_pattern_sound in Hm as (pre & rest & w & c' & _ & -> & Hw).
  apply pattern_shape in Hw
    as (ws1 & ws2 & kw & ws3 & v & ws4 & ws5 & it & _ & _ & _ & _ & _ & _
        & _ & _ & (_ & Hit) & ->).
  exists it. split; [reflexivity|].
  destruct (match_ uni_alnum split_pattern it) as [[m'|]|e] eqn:E.
  - exfalso.
    apply match_split_pattern_sound in E
      as (x & recv & args & rest' & E & _).
    apply (all_in_not_In (chr ")") Hit); [reflexivity|].
    rewrite E. apply in_or_app; right.
    apply in_or_app; right. apply in_or_app; right.
    now left.
  - reflexivity.
  - rewrite match_split_pattern in E. discriminate.
Qed.

(** X2: a match found by [re.search] with the for-each pattern lies in
    the text at the offset it reports, is a for-each header, and its three
    groups all took part: they hold the keyword, the variable and the
    iterable of that header. *)
Theorem search_groups_of_header (s : str) (m : Match) :
  search uni_alnum pattern s = Ok (Some m) ->
  exists pre rest kw v it,
    s = pre ++ m_whole m ++ rest
    /\ m_start m = List.length pre
    /\ for_each_header uni_alnum (m_whole m) kw v it
    /\ m_slots m = [Some kw; Some v; Some it].
Proof.
  intros Hm.
  apply search_pattern_sound in Hm as (pre & rest & w & c' & -> & -> & Hw).
  apply pattern_shape in Hw
    as (ws1 & ws2 & kw & ws3 & v & ws4 & ws5 & it & -> & H1 & H2 & Hkw
        & H3 & Hv & H4 & H5 & Hit & ->).
  exists pre, rest, kw, v, it. cbn [m_whole m_start m_slots].
  repeat split.
  exists ws1, ws2, ws3, ws4, ws5. repeat split; tauto.
Qed.

(** X3: wherever a for-each header stands in a text, [re.search] with the
    for-each pattern finds a match, and the match starts no later than
    that header. *)
Theorem search_finds_header (w kw v it : str) :
  for_each_header uni_alnum w kw v it ->
  forall pre rest,
    exists m,
      search uni_alnum pattern (pre ++ w ++ rest) = Ok (Some m)
      /\ m_start m <= List.length pre.
Proof.
  intros Hw pre rest.
  apply header_sem with (c := [None; None; None]) in Hw.
  destruct (scan_leftmost Hw pre rest 0) as (m & Hm & Hle).
  exists m. rewrite search_pattern, Hm. split; [reflexivity | exact Hle].
Qed.

(** X4: [re.match] with the split pattern succeeds exactly on the strings
    that begin with a call of [split] on a non-empty receiver, receiver
    and arguments each on one line. *)
Theorem match_split_call_iff (s : str) :
  (exists m, match_ uni_alnum split_pattern s = Ok (Some m))
  <-> (exists w rest, s = w ++ rest /\ split_call w).
Proof.
  rewrite match_split_pattern. split.
  - intros (m & Hm). injection Hm as Hm.
    apply match_here_sound in Hm as (rest & Hs & Hw & _).
    apply sem_split_call in Hw as [Hw _].
    now exists (m_whole m), rest.
  - intros (w & rest & -> & Hw).
    apply split_call_sem with (uni_alnum := uni_alnum) (c := []) in Hw.
    pose proof (@match_here_complete uni_alnum split_re 0 w rest _ _ Hw) as H.
    destruct (match_here uni_alnum split_re 0 (w ++ rest)) as [m|];
      [now exists m | contradiction].
Qed.

(** X5: a match of the split pattern is a call of [split] that runs up to
    the last closing parenthesis of the first line: in what follows the
    match, a line break comes before any closing parenthesis. *)
Theorem split_match_greedy (s : str) (m : Match) :
  match_ uni_alnum split_pattern s = Ok (Some m) ->
  exists rest,
    s = m_whole m ++ rest
    /\ split_call (m_whole m)
    /\ forall b d, rest = b ++ chr ")" :: d -> ~ line b.
Proof.
  rewrite match_split_pattern. intros Hm; injection Hm as Hm.
  pose proof Hm as Hrun.
  apply match_here_sound in Hm as (rest & Hs & Hw & _).
  apply sem_split_call in Hw as [Hw _].
  exists rest. split; [exact Hs|]. split; [exact Hw|].
  unfold match_here, split_re in Hrun.
  apply run_cat_sound in Hrun as (p1 & r1 & k1 & E1 & _ & Hrun).
  apply run_cat_sound in Hrun as (p2 & r2 & k2 & E2 & _ & Hrun).
  apply run_cat_sound in Hrun as (p3 & r3 & k3 & E3 & _ & Hrun).
  apply run_cat_sound in Hrun as (p4 & r4 & k4 & E4 & _ & Hrun).
  apply run_cat_sound in Hrun as (p5 & r5 & k5 & E5 & _ & Hrun).
  apply run_cat_sound in Hrun as (p6 & r6 & k6 & E6 & _ & Hrun).
  apply run_cat_sound in Hrun as (p7 & r7 & k7 & E7 & _ & Hrun).
  apply run_cat_sound in Hrun as (p8 & r8 & k8 & E8 & _ & Hrun).
  change (run uni_alnum (Star (Chr CAny)) r8 k8
            (fun s1 c1 => run uni_alnum (lit ")") s1 c1
               (fun s1 c1 =>
                  Some (mkMatch 0
                          (firstn (List.length s - List.length s1) s) c1)))
          = Some m) in Hrun.
  apply star_any_last in Hrun as (a & s2 & E9 & _ & Hk & Hlast);
    [|discriminate].
  injection Hk as Hk.
  assert (Es : s = (p1 ++ p2 ++ p3 ++ p4 ++ p5 ++ p6 ++ p7 ++ p8 ++ a
                    ++ [chr ")"]) ++ s2).
  { rewrite E1, E2, E3, E4, E5, E6, E7, E8, E9.
    now rewrite <- !app_assoc. }
  rewrite Es, firstn_consumed in Hk.
  rewrite <- Hk in Hs. cbn [m_whole] in Hs.
  rewrite Es in Hs at 1. apply app_inv_head in Hs. now subst rest.
Qed.

End Further.

(** ** What the script reports on any two subject strings *)

Section Verdicts.
Import Re Script Patterns Props.

Variable uni_alnum : N -> bool.



End Verdicts.

(** ** The further properties at concrete inputs *)

Section FurtherExamples.
Import Re Script Props.

Lemma header_example :
  for_each_header ascii_only (codes "for(final x in xs)")
    (codes "final") (codes "x") (codes "xs").
Proof.
  exists [], [], (codes " "), (codes " "), (codes " ").
  repeat split; try discriminate; try (now right);
    repeat constructor.
Qed.

Lemma split_call_example : split_call (codes "a.split(',')").
Proof.
  exists (chr "a"), [], (codes "','").
  repeat split; repeat constructor.
Qed.

Lemma iterable_never_split_call_witness :
  exists it,
    it = codes "'hello'.split(''"
    /\ match_ ascii_only split_pattern it = Ok None.
Proof.
  destruct (@iterable_never_split_call ascii_only text
              (mkMatch 0 (codes "for (var char in 'hello'.split('')")
                 [Some (codes "var"); Some (codes "char");
                  Some (codes "'hello'.split(''")])
              eq_refl)
    as (it & Hg & Hno).
  exists it. injection Hg as <-. split; [reflexivity | exact Hno].
Defined.

Lemma search_groups_of_header_witness :
  exists pre rest kw v it,
    text = pre ++ codes "for (var char in 'hello'.split('')" ++ rest
    /\ 0 = List.length pre
    /\ for_each_header ascii_only
         (codes "for (var char in 'hello'.split('')") kw v it
    /\ [Some (codes "var"); Some (codes "char");
        Some (codes "'hello'.split(''")] = [Some kw; Some v; Some it].
Proof.
  exact (@search_groups_of_header ascii_only text
           (mkMatch 0 (codes "for (var char in 'hello'.split('')")
              [Some (codes "var"); Some (codes "char");
               Some (codes "'hello'.split(''")])
           eq_refl).
Defined.

Lemma search_finds_header_witness :
  exists m,
    search ascii_only pattern (codes "  for(final x in xs) {}") = Ok (Some m)
    /\ m_start m <= 2.
Proof.
  exact (@search_finds_header ascii_only _ _ _ _ header_example
           (codes "  ") (codes " {}")).
Defined.

Lemma match_split_call_iff_witness :
  exists m, match_ ascii_only split_pattern (codes "a.split(',') + b")
            = Ok (Some m).
Proof.
  apply (proj2 (match_split_call_iff ascii_only (codes "a.split(',') + b"))).
  exists (codes "a.split(',')"), (codes " + b").
  split; [reflexivity | exact split_call_example].
Defined.

Lemma split_match_greedy_witness :
  exists rest,
    codes "a.split(b) c) d" = codes "a.split(b) c)" ++ rest
    /\ split_call (codes "a.split(b) c)")
    /\ forall b d, rest = b ++ chr ")" :: d -> ~ line b.
Proof.
  exact (@split_match_greedy ascii_only (codes "a.split(b) c) d")
           (mkMatch 0 (codes "a.split(b) c)") []) eq_refl).
Defined.



End FurtherExamples.
